(** * BFTList: the event-driven failure detector

    A shallow embedding of [modules/event_driven_fd/module.py]
    (class [EventDrivenFDModule]) and the properties of its token-exchange
    protocol: the quorum predicate, the recorded set of correct processors,
    the message handler and the freshness query.

    Conventions of the embedding.
    - Python integers are [Z].  Node ids, counters, [n] and [f] are integers.
    - A token is a reading of [time.time()].  Only equality and order of
      readings are used by the module, so a reading is modelled as the
      integer number of clock ticks it stands for; the clock itself is an
      input of the model (the argument [now] of [init] and [finish_round]).
    - [self.counters] is a Python dict from node id to integer: a
      [gmap Z Z].  The module builds the dict from [range(n)] only and
      afterwards assigns to keys it already holds, so a Python iteration
      over it visits the keys in ascending order: [keys].
    - [self.last_correct_processors] is either the empty dict or a dict with
      the two keys "token" and "correct_processors": an [option] of a record.
    - Calls into the collaborators ([resolver.send_to_node], [time.sleep])
      are recorded, in program order, as a list of [Effect]s.
    - An exception leaves the object as it was when it was raised, so a call
      yields its completion (returned or raised), the object afterwards and
      the effects performed. *)

From stdpp Require Import base decidable numbers option list list_numbers sorting gmap fin_maps fin_sets.

Local Open Scope Z_scope.

(** ** Messages, effects, exceptions *)

(** [resolve.enums.MessageType]: the module uses this member only. *)
Inductive MessageType := EVENT_DRIVEN_FD_MESSAGE.

Module Msg.
(** [msg["data"]] *)
Record Data := { token : Z; owner_id : Z }.
(** The message dict built by [send_token] and read by [on_msg_recv]. *)
Record t := { type : MessageType; sender : Z; data : Data }.
End Msg.

(** The argument of [time.sleep]: a literal number of seconds, or the
    constant [EVENT_FD_WAIT] of [modules.constants]. *)
Inductive Duration :=
| Seconds (s : Z)
| EVENT_FD_WAIT.

Inductive Effect :=
| sleep (d : Duration)
| send_to_node (node_id : Z) (msg : Msg.t) (reliable : bool).

Inductive Exception :=
| KeyError (key : Z).

Inductive Completion :=
| Returns
| Raises (e : Exception).

(** ** The object *)

Module Result.
(** The non-empty form of [self.last_correct_processors]. *)
Record t := { token : Z; correct_processors : list Z }.
End Result.

Record EventDrivenFDModule := {
  id : Z;
  number_of_nodes : Z;
  number_of_byzantine : Z;
  token : Z;
  counters : gmap Z Z;
  last_correct_processors : option Result.t
}.

(** What a call leaves behind. *)
Record Outcome := {
  completion : Completion;
  self_after : EventDrivenFDModule;
  effects : list Effect
}.

Definition set_counters (self : EventDrivenFDModule) (c : gmap Z Z) : EventDrivenFDModule :=
  {| id := id self;
     number_of_nodes := number_of_nodes self;
     number_of_byzantine := number_of_byzantine self;
     token := token self;
     counters := c;
     last_correct_processors := last_correct_processors self |}.

(** [range(n)] *)
Definition range (n : Z) : list Z := seqZ 0 n.

(** [{n_id: 0 for n_id in range(n) if n_id != id}] *)
Definition zero_counters (n self_id : Z) : gmap Z Z :=
  list_to_map ((λ n_id, (n_id, 0)) <$> filter (λ n_id, n_id ≠ self_id) (range n)).

(** [for n_id in d]: the keys, in the order Python visits them. *)
Definition keys (d : gmap Z Z) : list Z := merge_sort Z.le (elements (dom d)).

(** [[n_id for n_id in d if P(d[n_id])]] *)
Definition keys_where (P : Z → Prop) `{!∀ c, Decision (P c)} (d : gmap Z Z) : list Z :=
  filter (λ n_id, P (d !!! n_id)) (keys d).

(** [__init__(id, resolver, n, f)]; [now] is the reading of [time.time()]. *)
Definition init (self_id n f now : Z) : EventDrivenFDModule :=
  {| id := self_id;
     number_of_nodes := n;
     number_of_byzantine := f;
     token := now;
     counters := zero_counters n self_id;
     last_correct_processors := None |}.

(** ** Sending *)

(** [send_token(processor_id, token, owner_id)] *)
Definition send_token (self : EventDrivenFDModule) (processor_id tok owner : Z) : list Effect :=
  let msg := {| Msg.type := EVENT_DRIVEN_FD_MESSAGE;
                Msg.sender := id self;
                Msg.data := {| Msg.token := tok; Msg.owner_id := owner |} |} in
  [send_to_node processor_id msg true].

(** [broadcast()] *)
Definition broadcast (self : EventDrivenFDModule) : list Effect :=
  processor_id ← filter (λ p, p ≠ id self) (range (number_of_nodes self));
  send_token self processor_id (token self) (id self).

(** ** The message handler *)

(** Lines 95-96 of [on_msg_recv]: [if self.id == 0: time.sleep(1)]. *)
Definition node_0_delay (self : EventDrivenFDModule) : list Effect :=
  if decide (id self = 0) then [sleep (Seconds 1)] else [].

(** Lines 94-97 of [on_msg_recv]: the delay of node 0, then the echo. *)
Definition send_back (self : EventDrivenFDModule) (sender_id tok owner : Z) : list Effect :=
  node_0_delay self ++ send_token self sender_id tok owner.

(** [on_msg_recv(msg)] *)
Definition on_msg_recv (self : EventDrivenFDModule) (msg : Msg.t) : Outcome :=
  let sender_id := Msg.sender msg in
  let tok := Msg.token (Msg.data msg) in
  let owner := Msg.owner_id (Msg.data msg) in
  if decide (owner = id self) then
    if decide (tok = token self) then
      (* self.counters[sender_id] += 1 *)
      match counters self !! sender_id with
      | Some c =>
          let self' := set_counters self (<[sender_id := c + 1]> (counters self)) in
          {| completion := Returns; self_after := self';
             effects := send_back self' sender_id tok owner |}
      | None =>
          {| completion := Raises (KeyError sender_id); self_after := self;
             effects := [] |}
      end
    else
      {| completion := Returns; self_after := self; effects := [] |}
  else
    {| completion := Returns; self_after := self;
       effects := send_back self sender_id tok owner |}.

(** ** The quorum tracker *)

(** [get_correct_processors()] *)
Definition get_correct_processors (self : EventDrivenFDModule) : list Z :=
  keys_where (λ c, 0 < c) (counters self) ++ [id self].

Section Threshold.
(** [K_ADMISSIBILITY_THRESHOLD] of [modules.constants]. *)
Variable K : Z.

(** [correct_processors_have_replied()] *)
Definition correct_processors_have_replied (self : EventDrivenFDModule) : bool :=
  let correct_processors := keys_where (λ c, K ≤ c) (counters self) ++ [id self] in
  bool_decide (number_of_nodes self - 2 * number_of_byzantine self
               ≤ Z.of_nat (length correct_processors)).
End Threshold.

(** ** The result store *)

(** [get_last_correct_processors()] *)
Definition get_last_correct_processors (self : EventDrivenFDModule) : list Z :=
  match last_correct_processors self with
  | None => []
  | Some r => Result.correct_processors r
  end.

(** [get_correct_processors_for_timestamp(timestamp)] *)
Definition get_correct_processors_for_timestamp
    (self : EventDrivenFDModule) (timestamp : Z) : list Z :=
  match last_correct_processors self with
  | None => []
  | Some r =>
      if decide (Result.token r < timestamp) then []
      else get_last_correct_processors self
  end.

(** ** The round driver *)

(** Lines 57-67 of [run]: publish the result of the round, reset the
    counters, take a new token.  [now] is the reading of [time.time()]. *)
Definition finish_round (self : EventDrivenFDModule) (now : Z) : EventDrivenFDModule :=
  let correct_ids := get_correct_processors self in
  {| id := id self;
     number_of_nodes := number_of_nodes self;
     number_of_byzantine := number_of_byzantine self;
     token := now;
     counters := zero_counters (number_of_nodes self) (id self);
     last_correct_processors :=
       Some {| Result.token := token self; Result.correct_processors := correct_ids |} |}.

(** [run(testing=True)]: both waits are skipped and the loop is left after
    one iteration. *)
Definition run_testing (self : EventDrivenFDModule) (now : Z) : Outcome :=
  {| completion := Returns;
     self_after := finish_round self now;
     effects := broadcast self |}.

(** Outside testing mode the driver and the handler share the object: the
    handler runs while the driver sleeps.  A schedule lists, in order, the
    deliveries of the transport and the evaluations of the loop condition
    [correct_processors_have_replied()] of line 53, each with the clock
    reading the driver would take at line 67. *)
Inductive Event :=
| Deliver (msg : Msg.t)
| Poll (now : Z).

Section Driver.
Variable K : Z.

(** One evaluation of the condition of line 53: sleep, or finish the round
    and start the next iteration with its broadcast. *)
Definition poll (self : EventDrivenFDModule) (now : Z) : EventDrivenFDModule * list Effect :=
  if correct_processors_have_replied K self then
    let self' := finish_round self now in (self', broadcast self')
  else (self, [sleep EVENT_FD_WAIT]).

Definition handle (self : EventDrivenFDModule) (ev : Event) : EventDrivenFDModule * list Effect :=
  match ev with
  | Deliver msg => let r := on_msg_recv self msg in (self_after r, effects r)
  | Poll now => poll self now
  end.

Fixpoint run_schedule (self : EventDrivenFDModule) (schedule : list Event)
    : EventDrivenFDModule * list Effect :=
  match schedule with
  | [] => (self, [])
  | ev :: rest =>
      let '(self', out) := handle self ev in
      let '(self'', out') := run_schedule self' rest in
      (self'', out ++ out')
  end.

(** [run()] from line 49 on, along a schedule. *)
Definition run (self : EventDrivenFDModule) (schedule : list Event)
    : EventDrivenFDModule * list Effect :=
  let '(self', out) := run_schedule self schedule in
  (self', broadcast self ++ out).
End Driver.

(** The sleeps among a list of effects, and the sends without their
    [sender] field. *)
Definition sleeps (out : list Effect) : list Duration :=
  omap (λ e, match e with sleep d => Some d | _ => None end) out.

Definition sends (out : list Effect) : list (Z * Msg.Data * bool) :=
  omap (λ e, match e with
             | send_to_node node_id msg reliable => Some (node_id, Msg.data msg, reliable)
             | _ => None
             end) out.

(** ** The diagnostic read *)

Module Data.
(** The dict returned by [get_data]. *)
Record t := {
  last_correct_processors : option Result.t;
  current_token : Z;
  counters : gmap Z Z;
  k_threshold : Z
}.
End Data.

(** [get_data()]; [K] is [K_ADMISSIBILITY_THRESHOLD]. *)
Definition get_data (K : Z) (self : EventDrivenFDModule) : Data.t :=
  {| Data.last_correct_processors := last_correct_processors self;
     Data.current_token := token self;
     Data.counters := counters self;
     Data.k_threshold := K |}.

(** The handler called once per message of a list, in order. *)
Definition deliver_all (self : EventDrivenFDModule) (msgs : list Msg.t) : EventDrivenFDModule :=
  foldl (λ s msg, self_after (on_msg_recv s msg)) self msgs.


(** The shape [__init__] gives the object of node [self_id] among [n] nodes
    with [f] Byzantine ones: the configuration is in place, the counter map
    has exactly the keys of [zero_counters n self_id], no counter is
    negative, and a recorded result names the node itself. *)
Definition well_formed (self_id n f : Z) (self : EventDrivenFDModule) : Prop :=
  id self = self_id
  ∧ number_of_nodes self = n
  ∧ number_of_byzantine self = f
  ∧ dom (counters self) = dom (zero_counters n self_id)
  ∧ (∀ p c, counters self !! p = Some c → 0 ≤ c)
  ∧ (∀ r, last_correct_processors self = Some r
          → self_id ∈ Result.correct_processors r).

(** ** [metrics/state.py]: tracking of client requests

    [client_reqs] is a dict from client request to the clock reading at
    which the request became pending.  [ClientRequest] (of
    [modules.replication.models.client_request]) is a type with the
    equality its dict keys are compared by; [get_client_id] and
    [get_timestamp] are its accessors, with values in a type of labels.
    The difference of two clock readings is their difference in ticks. *)

Module Metrics.

Inductive Level := ERROR | INFO | DEBUG.

Section State.
Context {ClientRequest Label : Type} `{Countable ClientRequest}.
Variables get_client_id get_timestamp : ClientRequest → Label.

(** The texts handed to the logger. *)
Inductive Text :=
| already_tracked (client_req : ClientRequest)
| started_tracking (client_req : ClientRequest)
| not_tracked (client_req : ClientRequest)
| execed_in (exec_time : Z).

(** [logger.<level>(text)] and
    [client_req_exec_time.labels(client_id, timestamp, seq_num).set(value)]. *)
Inductive Emit :=
| log (level : Level) (text : Text)
| gauge_set (client_id timestamp : Label) (seq_num : Z) (value : Z).

(** [client_req_added_to_pending(client_req)]; [now] is [time.time()]. *)
Definition client_req_added_to_pending
    (client_reqs : gmap ClientRequest Z) (client_req : ClientRequest) (now : Z)
    : gmap ClientRequest Z * list Emit :=
  match client_reqs !! client_req with
  | Some _ => (client_reqs, [log ERROR (already_tracked client_req)])
  | None => (<[client_req := now]> client_reqs,
             [log INFO (started_tracking client_req)])
  end.

(** [client_req_executed(client_req, seq_num)]; [now] is [time.time()]. *)
Definition client_req_executed
    (client_reqs : gmap ClientRequest Z) (client_req : ClientRequest)
    (seq_num now : Z) : gmap ClientRequest Z * list Emit :=
  match client_reqs !! client_req with
  | None => (client_reqs, [log DEBUG (not_tracked client_req)])
  | Some start =>
      let exec_time := now - start in
      (delete client_req client_reqs,
       [log INFO (execed_in exec_time);
        gauge_set (get_client_id client_req) (get_timestamp client_req)
          seq_num exec_time])
  end.

End State.

(** The gauge updates among what was emitted. *)
Definition gauge_updates {ClientRequest Label : Type}
    (out : list (@Emit ClientRequest Label)) : list (Label * Label * Z * Z) :=
  omap (λ e, match e with
             | gauge_set client_id timestamp seq_num value =>
                 Some (client_id, timestamp, seq_num, value)
             | _ => None
             end) out.

End Metrics.

(** A table of requests named by integers, with request 7 pending since
    the reading 40. *)
Definition pending_7 : gmap Z Z := {[ 7 := 40 ]}.

(** ** Concrete nodes and messages

    The scenario of the test suite: six nodes, one of them Byzantine. *)

Definition echo (sender_id tok owner : Z) : Msg.t :=
  {| Msg.type := EVENT_DRIVEN_FD_MESSAGE;
     Msg.sender := sender_id;
     Msg.data := {| Msg.token := tok; Msg.owner_id := owner |} |}.

(** Node 0 of six, constructed when the clock reads 100. *)
Definition node0 : EventDrivenFDModule := init 0 6 1 100.

(** Node 1 of the same system, constructed at the same reading. *)
Definition node1 : EventDrivenFDModule := init 1 6 1 100.

(** Node 0 after nodes 1 to 4 returned its token three times each and
    node 5 once. *)
Definition node0_echoed : EventDrivenFDModule :=
  (run_schedule 3 node0
     (Deliver <$> [echo 1 100 0; echo 2 100 0; echo 3 100 0; echo 4 100 0;
                   echo 1 100 0; echo 2 100 0; echo 3 100 0; echo 4 100 0;
                   echo 1 100 0; echo 2 100 0; echo 3 100 0; echo 4 100 0;
                   echo 5 100 0])).1.

(** The number of peers whose counter is at least [K]. *)
Definition admissible_count (K : Z) (self : EventDrivenFDModule) : nat :=
  size (filter (λ item : Z * Z, K ≤ item.2) (counters self)).

(** ** Dictionaries *)

Lemma elem_of_keys (d : gmap Z Z) k : k ∈ keys d ↔ is_Some (d !! k).
Proof.
  unfold keys. by rewrite merge_sort_Permutation, elem_of_elements, elem_of_dom.
Qed.

Lemma NoDup_keys (d : gmap Z Z) : NoDup (keys d).
Proof.
  unfold keys. rewrite merge_sort_Permutation. apply NoDup_elements.
Qed.

Section KeysWhere.
Context (P : Z → Prop) `{!∀ c, Decision (P c)}.
Implicit Types (d : gmap Z Z) (k c : Z).

Lemma elem_of_keys_where d k :
  k ∈ keys_where P d ↔ ∃ c, d !! k = Some c ∧ P c.
Proof.
  unfold keys_where. rewrite list_elem_of_filter, elem_of_keys. split.
  - intros [HP [c Hc]]. exists c. split; [done|].
    by rewrite (lookup_total_correct _ _ _ Hc) in HP.
  - intros (c & Hc & HP). rewrite (lookup_total_correct _ _ _ Hc). eauto.
Qed.

Lemma keys_where_perm d :
  keys_where P d ≡ₚ (map_to_list (filter (λ item : Z * Z, P item.2) d)).*1.
Proof.
  apply NoDup_Permutation.
  - apply NoDup_filter, NoDup_keys.
  - apply NoDup_fst_map_to_list.
  - intros k. rewrite elem_of_keys_where, list_elem_of_fmap. split.
    + intros (c & Hc & HP). exists (k, c). split; [done|].
      apply elem_of_map_to_list, map_lookup_filter_Some. done.
    + intros [[k' c] [-> Hin]]. exists c.
      by apply elem_of_map_to_list, map_lookup_filter_Some in Hin.
Qed.

Lemma length_keys_where d :
  length (keys_where P d) = size (filter (λ item : Z * Z, P item.2) d).
Proof. by rewrite keys_where_perm, length_fmap, length_map_to_list. Qed.

Lemma keys_where_nil d :
  (∀ k c, d !! k = Some c → ¬ P c) → keys_where P d = [].
Proof.
  intros Hd. destruct (keys_where P d) as [|k l] eqn:E; [done|].
  assert (k ∈ keys_where P d) as (c & Hk & HP)%elem_of_keys_where
    by (rewrite E; left).
  by destruct (Hd k c).
Qed.
End KeysWhere.

Lemma elem_of_range n k : k ∈ range n ↔ 0 ≤ k < n.
Proof. unfold range. rewrite elem_of_seqZ. lia. Qed.

Lemma lookup_zero_counters n self_id k :
  zero_counters n self_id !! k
  = if decide (0 ≤ k < n ∧ k ≠ self_id) then Some 0 else None.
Proof.
  unfold zero_counters. case_decide as Hk.
  - apply elem_of_list_to_map.
    + rewrite <-list_fmap_compose. simpl. rewrite list_fmap_id.
      apply NoDup_filter, NoDup_seqZ.
    + apply list_elem_of_fmap. exists k. split; [done|].
      apply list_elem_of_filter. rewrite elem_of_range. tauto.
  - apply not_elem_of_list_to_map. rewrite <-list_fmap_compose. simpl.
    rewrite list_fmap_id, list_elem_of_filter, elem_of_range. tauto.
Qed.

Lemma dom_zero_counters n self_id :
  dom (zero_counters n self_id) = list_to_set (range n) ∖ {[self_id]}.
Proof.
  apply set_eq. intros k.
  rewrite elem_of_dom, lookup_zero_counters, elem_of_difference,
    elem_of_list_to_set, elem_of_range, elem_of_singleton.
  case_decide as Hk; split.
  - tauto.
  - eauto.
  - by intros [? ?].
  - tauto.
Qed.

Lemma size_zero_counters n self_id :
  0 ≤ self_id < n → Z.of_nat (size (zero_counters n self_id)) = n - 1.
Proof.
  intros Hid. rewrite <-size_dom, dom_zero_counters.
  rewrite size_difference, size_singleton.
  - rewrite size_list_to_set by apply NoDup_seqZ.
    unfold range. rewrite length_seqZ. lia.
  - apply singleton_subseteq_l, elem_of_list_to_set, elem_of_range. done.
Qed.

(** ** The quorum predicate *)

(** C1: [correct_processors_have_replied] is true exactly when the number of
    peers whose counter is at least [K], plus one for the node itself, is at
    least [n - 2f]; so it is false whenever fewer than [n - 2f - 1] peers
    have such a counter. *)
Theorem correct_processors_have_replied_iff K self :
  (correct_processors_have_replied K self = true
   ↔ number_of_nodes self - 2 * number_of_byzantine self
     ≤ Z.of_nat (admissible_count K self) + 1)
  ∧ (Z.of_nat (admissible_count K self)
     < number_of_nodes self - 2 * number_of_byzantine self - 1
     → correct_processors_have_replied K self = false).
Proof.
  unfold correct_processors_have_replied, admissible_count.
  rewrite length_app, length_keys_where. simpl. split.
  - rewrite bool_decide_eq_true. lia.
  - intros Hfew. apply bool_decide_eq_false. lia.
Qed.

(** ** The recorded set of correct processors *)

(** C2: with a positive threshold [K], the list [get_correct_processors]
    holds the node's own id and every peer whose counter is at least [K];
    when every counter is zero it is the one-element list of the own id. *)
Theorem get_correct_processors_superset K self :
  0 < K →
  id self ∈ get_correct_processors self
  ∧ (∀ p c, counters self !! p = Some c → K ≤ c → p ∈ get_correct_processors self)
  ∧ ((∀ p c, counters self !! p = Some c → c = 0)
     → get_correct_processors self = [id self]).
Proof.
  intros HK. unfold get_correct_processors. repeat split.
  - apply elem_of_app. right. apply list_elem_of_singleton. done.
  - intros p c Hp Hc. apply elem_of_app. left.
    apply elem_of_keys_where. exists c. split; [done|lia].
  - intros Hzero. rewrite keys_where_nil; [done|].
    intros p c Hp Hc. apply Hzero in Hp. lia.
Qed.

Lemma get_correct_processors_superset_witness :
  0 < 3
  ∧ (0 ∈ get_correct_processors node0_echoed
     ∧ (∀ p c, counters node0_echoed !! p = Some c → 3 ≤ c
               → p ∈ get_correct_processors node0_echoed)
     ∧ ((∀ p c, counters node0_echoed !! p = Some c → c = 0)
        → get_correct_processors node0_echoed = [0])).
Proof.
  split; [lia | apply (get_correct_processors_superset 3 node0_echoed); lia].
Defined.

(** ** The message handler *)

Lemma msg_data_eta (d : Msg.Data) :
  {| Msg.token := Msg.token d; Msg.owner_id := Msg.owner_id d |} = d.
Proof. by destruct d. Qed.

(** The message [send_token] builds for the token and owner of [msg]. *)
Lemma send_back_msg self msg :
  send_back self (Msg.sender msg) (Msg.token (Msg.data msg)) (Msg.owner_id (Msg.data msg))
  = node_0_delay self
    ++ [send_to_node (Msg.sender msg)
          {| Msg.type := EVENT_DRIVEN_FD_MESSAGE;
             Msg.sender := id self;
             Msg.data := Msg.data msg |} true].
Proof. unfold send_back, send_token. by rewrite msg_data_eta. Qed.

(** C3: a message that names this node as owner but carries another token
    than the current one is dropped: the call returns, the object (counters
    and everything else) is as before, and nothing is sent. *)
Theorem on_msg_recv_stale_token self msg :
  Msg.owner_id (Msg.data msg) = id self →
  Msg.token (Msg.data msg) ≠ token self →
  on_msg_recv self msg
  = {| completion := Returns; self_after := self; effects := [] |}.
Proof.
  intros Howner Htoken. unfold on_msg_recv.
  rewrite decide_True by done. by rewrite decide_False.
Qed.

Lemma on_msg_recv_stale_token_witness :
  Msg.owner_id (Msg.data (echo 3 99 0)) = id node0_echoed
  ∧ Msg.token (Msg.data (echo 3 99 0)) ≠ token node0_echoed
  ∧ on_msg_recv node0_echoed (echo 3 99 0)
    = {| completion := Returns; self_after := node0_echoed; effects := [] |}.
Proof.
  assert (Msg.owner_id (Msg.data (echo 3 99 0)) = id node0_echoed) as Howner
    by reflexivity.
  assert (Msg.token (Msg.data (echo 3 99 0)) ≠ token node0_echoed) as Htoken
    by (vm_compute; discriminate).
  split; [exact Howner|]. split; [exact Htoken|].
  exact (on_msg_recv_stale_token node0_echoed (echo 3 99 0) Howner Htoken).
Defined.

(** C7: a message owned by another node leaves the object (and so every
    counter) as it was, and is sent back to its sender with the same token
    and the same owner, this node being the sender of the reply; node 0
    sleeps one second before it sends. *)
Theorem on_msg_recv_not_owner self msg :
  Msg.owner_id (Msg.data msg) ≠ id self →
  on_msg_recv self msg
  = {| completion := Returns;
       self_after := self;
       effects := node_0_delay self
                  ++ [send_to_node (Msg.sender msg)
                        {| Msg.type := EVENT_DRIVEN_FD_MESSAGE;
                           Msg.sender := id self;
                           Msg.data := Msg.data msg |} true] |}.
Proof.
  intros Howner. unfold on_msg_recv.
  rewrite decide_False by done. by rewrite send_back_msg.
Qed.

Lemma on_msg_recv_not_owner_witness :
  Msg.owner_id (Msg.data (echo 3 100 1)) ≠ id node0_echoed
  ∧ on_msg_recv node0_echoed (echo 3 100 1)
    = {| completion := Returns;
         self_after := node0_echoed;
         effects := [sleep (Seconds 1); send_to_node 3 (echo 0 100 1) true] |}.
Proof.
  assert (Msg.owner_id (Msg.data (echo 3 100 1)) ≠ id node0_echoed) as Howner
    by (vm_compute; discriminate).
  split; [exact Howner|].
  exact (on_msg_recv_not_owner node0_echoed (echo 3 100 1) Howner).
Defined.

(** C10 fails as stated.  Node 0 holds no counter for the id 7; a message
    from 7 that names node 0 as owner and carries the current token raises
    [KeyError] at [self.counters[sender_id] += 1]: no counter is
    incremented and the token is not sent back. *)
Lemma on_msg_recv_current_token_no_counter :
  Msg.owner_id (Msg.data (echo 7 100 0)) = id node0
  ∧ Msg.token (Msg.data (echo 7 100 0)) = token node0
  ∧ counters node0 !! Msg.sender (echo 7 100 0) = None
  ∧ on_msg_recv node0 (echo 7 100 0)
    = {| completion := Raises (KeyError 7); self_after := node0; effects := [] |}.
Proof. repeat split; reflexivity. Qed.

(** C10, amended: a message that names this node as owner and carries the
    current token, when its sender has a counter, adds one to that counter
    (no other field and no other counter changes) and is then sent back to
    the sender with the same token and owner, after the delay of node 0;
    when its sender has no counter, the call raises [KeyError], changes
    nothing and sends nothing. *)
Theorem on_msg_recv_current_token self msg :
  Msg.owner_id (Msg.data msg) = id self →
  Msg.token (Msg.data msg) = token self →
  on_msg_recv self msg
  = match counters self !! Msg.sender msg with
    | Some c =>
        {| completion := Returns;
           self_after :=
             set_counters self (<[Msg.sender msg := c + 1]> (counters self));
           effects := (if decide (id self = 0) then [sleep (Seconds 1)] else [])
                      ++ [send_to_node (Msg.sender msg)
                            {| Msg.type := EVENT_DRIVEN_FD_MESSAGE;
                               Msg.sender := id self;
                               Msg.data := Msg.data msg |} true] |}
    | None =>
        {| completion := Raises (KeyError (Msg.sender msg));
           self_after := self;
           effects := [] |}
    end.
Proof.
  intros Howner Htoken. unfold on_msg_recv.
  rewrite decide_True by done. rewrite decide_True by done.
  destruct (counters self !! Msg.sender msg) as [c|]; [|done].
  by rewrite send_back_msg.
Qed.

Lemma on_msg_recv_current_token_witness :
  Msg.owner_id (Msg.data (echo 5 100 0)) = id node0_echoed
  ∧ Msg.token (Msg.data (echo 5 100 0)) = token node0_echoed
  ∧ counters node0_echoed !! 5 = Some 1
  ∧ on_msg_recv node0_echoed (echo 5 100 0)
    = {| completion := Returns;
         self_after := set_counters node0_echoed (<[5 := 2]> (counters node0_echoed));
         effects := [sleep (Seconds 1); send_to_node 5 (echo 0 100 0) true] |}.
Proof.
  assert (Msg.owner_id (Msg.data (echo 5 100 0)) = id node0_echoed) as Howner
    by reflexivity.
  assert (Msg.token (Msg.data (echo 5 100 0)) = token node0_echoed) as Htoken
    by reflexivity.
  assert (counters node0_echoed !! Msg.sender (echo 5 100 0) = Some 1) as Hc
    by (vm_compute; reflexivity).
  split; [exact Howner|]. split; [exact Htoken|]. split; [exact Hc|].
  exact (on_msg_recv_current_token node0_echoed (echo 5 100 0) Howner Htoken).
Defined.

(** C8 fails as stated.  Node 0 holds no counter for the id 9; a message
    from 9 that names node 0 as owner and carries the current token makes
    [self.counters[sender_id] += 1] raise [KeyError]. *)
Lemma on_msg_recv_unknown_sender_raises :
  counters node0 !! Msg.sender (echo 9 100 0) = None
  ∧ on_msg_recv node0 (echo 9 100 0)
    = {| completion := Raises (KeyError 9); self_after := node0; effects := [] |}.
Proof. split; reflexivity. Qed.

(** C8, amended: a message whose sender has no counter never changes the
    object, the counter map included.  It raises [KeyError] and sends
    nothing when it names this node as owner and carries the current token;
    it is dropped when it names this node as owner with another token; it is
    echoed to that sender (after the delay of node 0) when another node owns
    it. *)
Theorem on_msg_recv_unknown_sender self msg :
  counters self !! Msg.sender msg = None →
  self_after (on_msg_recv self msg) = self
  ∧ completion (on_msg_recv self msg)
    = (if decide (Msg.owner_id (Msg.data msg) = id self
                  ∧ Msg.token (Msg.data msg) = token self)
       then Raises (KeyError (Msg.sender msg)) else Returns)
  ∧ effects (on_msg_recv self msg)
    = (if decide (Msg.owner_id (Msg.data msg) = id self) then []
       else node_0_delay self
            ++ [send_to_node (Msg.sender msg)
                  {| Msg.type := EVENT_DRIVEN_FD_MESSAGE;
                     Msg.sender := id self;
                     Msg.data := Msg.data msg |} true]).
Proof.
  intros Hnone. unfold on_msg_recv. rewrite Hnone, send_back_msg.
  repeat case_decide; simpl; try done; tauto.
Qed.

Lemma on_msg_recv_unknown_sender_witness :
  counters node0_echoed !! Msg.sender (echo 0 100 0) = None
  ∧ self_after (on_msg_recv node0_echoed (echo 0 100 0)) = node0_echoed
  ∧ completion (on_msg_recv node0_echoed (echo 0 100 0)) = Raises (KeyError 0)
  ∧ effects (on_msg_recv node0_echoed (echo 0 100 0)) = [].
Proof.
  assert (counters node0_echoed !! Msg.sender (echo 0 100 0) = None) as Hnone
    by (vm_compute; reflexivity).
  split; [exact Hnone|].
  exact (on_msg_recv_unknown_sender node0_echoed (echo 0 100 0) Hnone).
Defined.

(** C9 fails as stated.  Nodes 0 and 1 are constructed alike and receive
    the same message, owned by node 2: node 0 sleeps one second before it
    replies and node 1 does not, and nothing but the id tells them apart. *)
Lemma on_msg_recv_delay_depends_on_id :
  number_of_nodes node0 = number_of_nodes node1
  ∧ number_of_byzantine node0 = number_of_byzantine node1
  ∧ token node0 = token node1
  ∧ sleeps (effects (on_msg_recv node0 (echo 3 7 2))) = [Seconds 1]
  ∧ sleeps (effects (on_msg_recv node1 (echo 3 7 2))) = [].
Proof. repeat split; reflexivity. Qed.

(** C9, amended: the delay is the fixed check [self.id == 0].  For two
    nodes and a message that neither owns, both objects stay as they were
    and both send the same token and owner to the same sender, each under
    its own name; each sleeps one second, before it sends, exactly when its
    own id is 0, and does nothing else. *)
Theorem on_msg_recv_delay_by_identity self1 self2 msg :
  Msg.owner_id (Msg.data msg) ≠ id self1 →
  Msg.owner_id (Msg.data msg) ≠ id self2 →
  on_msg_recv self1 msg
  = {| completion := Returns;
       self_after := self1;
       effects := (if decide (id self1 = 0) then [sleep (Seconds 1)] else [])
                  ++ [send_to_node (Msg.sender msg)
                        {| Msg.type := EVENT_DRIVEN_FD_MESSAGE;
                           Msg.sender := id self1;
                           Msg.data := Msg.data msg |} true] |}
  ∧ on_msg_recv self2 msg
    = {| completion := Returns;
         self_after := self2;
         effects := (if decide (id self2 = 0) then [sleep (Seconds 1)] else [])
                    ++ [send_to_node (Msg.sender msg)
                          {| Msg.type := EVENT_DRIVEN_FD_MESSAGE;
                             Msg.sender := id self2;
                             Msg.data := Msg.data msg |} true] |}
  ∧ sends (effects (on_msg_recv self1 msg)) = [(Msg.sender msg, Msg.data msg, true)]
  ∧ sends (effects (on_msg_recv self2 msg)) = [(Msg.sender msg, Msg.data msg, true)]
  ∧ sleeps (effects (on_msg_recv self1 msg))
    = (if decide (id self1 = 0) then [Seconds 1] else [])
  ∧ sleeps (effects (on_msg_recv self2 msg))
    = (if decide (id self2 = 0) then [Seconds 1] else []).
Proof.
  intros H1 H2. unfold on_msg_recv.
  rewrite !decide_False by done. simpl. rewrite !send_back_msg.
  unfold node_0_delay. repeat split; by repeat case_decide.
Qed.

Lemma on_msg_recv_delay_by_identity_witness :
  Msg.owner_id (Msg.data (echo 3 7 2)) ≠ id node0
  ∧ Msg.owner_id (Msg.data (echo 3 7 2)) ≠ id node1
  ∧ on_msg_recv node0 (echo 3 7 2)
    = {| completion := Returns;
         self_after := node0;
         effects := [sleep (Seconds 1); send_to_node 3 (echo 0 7 2) true] |}
  ∧ on_msg_recv node1 (echo 3 7 2)
    = {| completion := Returns;
         self_after := node1;
         effects := [send_to_node 3 (echo 1 7 2) true] |}
  ∧ sends (effects (on_msg_recv node0 (echo 3 7 2)))
    = [(3, {| Msg.token := 7; Msg.owner_id := 2 |}, true)]
  ∧ sends (effects (on_msg_recv node1 (echo 3 7 2)))
    = [(3, {| Msg.token := 7; Msg.owner_id := 2 |}, true)]
  ∧ sleeps (effects (on_msg_recv node0 (echo 3 7 2))) = [Seconds 1]
  ∧ sleeps (effects (on_msg_recv node1 (echo 3 7 2))) = [].
Proof.
  assert (Msg.owner_id (Msg.data (echo 3 7 2)) ≠ id node0) as H0
    by (vm_compute; discriminate).
  assert (Msg.owner_id (Msg.data (echo 3 7 2)) ≠ id node1) as H1
    by (vm_compute; discriminate).
  split; [exact H0|]. split; [exact H1|].
  exact (on_msg_recv_delay_by_identity node0 node1 (echo 3 7 2) H0 H1).
Defined.

(** ** The result store *)

(** C4: [get_correct_processors_for_timestamp] returns the whole recorded
    list when the recorded token is at least the timestamp, and the empty
    list when the recorded token is smaller or nothing was recorded yet. *)
Theorem get_correct_processors_for_timestamp_spec self timestamp :
  (∀ r, last_correct_processors self = Some r →
        timestamp ≤ Result.token r →
        get_correct_processors_for_timestamp self timestamp
        = Result.correct_processors r
        ∧ get_correct_processors_for_timestamp self timestamp
          = get_last_correct_processors self)
  ∧ (∀ r, last_correct_processors self = Some r →
          Result.token r < timestamp →
          get_correct_processors_for_timestamp self timestamp = [])
  ∧ (last_correct_processors self = None →
     get_correct_processors_for_timestamp self timestamp = []).
Proof.
  unfold get_correct_processors_for_timestamp, get_last_correct_processors.
  split; [|split].
  - intros r Hr Hle. rewrite Hr. rewrite decide_False by lia. done.
  - intros r Hr Hlt. rewrite Hr. by rewrite decide_True.
  - intros Hnone. by rewrite Hnone.
Qed.

(** ** The round driver *)

Lemma token_finish_round self now : token (finish_round self now) = now.
Proof. reflexivity. Qed.

(** C6: when the node's id is one of [0 .. n-1], the end of a round
    publishes the round's token with [get_correct_processors()] and leaves a
    counter map with exactly the keys [0 .. n-1] other than the own id,
    [n - 1] of them, each with the value zero. *)
Theorem finish_round_resets_counters self now :
  0 ≤ id self < number_of_nodes self →
  last_correct_processors (finish_round self now)
  = Some {| Result.token := token self;
            Result.correct_processors := get_correct_processors self |}
  ∧ (∀ p, counters (finish_round self now) !! p
          = if decide (0 ≤ p < number_of_nodes self ∧ p ≠ id self)
            then Some 0 else None)
  ∧ Z.of_nat (size (counters (finish_round self now))) = number_of_nodes self - 1.
Proof.
  intros Hid. simpl. split; [done|]. split.
  - intros p. apply lookup_zero_counters.
  - by apply size_zero_counters.
Qed.

Lemma finish_round_resets_counters_witness :
  0 ≤ id node0_echoed < number_of_nodes node0_echoed
  ∧ last_correct_processors (finish_round node0_echoed 107)
    = Some {| Result.token := 100;
              Result.correct_processors := [1; 2; 3; 4; 5; 0] |}
  ∧ (∀ p, counters (finish_round node0_echoed 107) !! p
          = if decide (0 ≤ p < 6 ∧ p ≠ 0) then Some 0 else None)
  ∧ Z.of_nat (size (counters (finish_round node0_echoed 107))) = 6 - 1.
Proof.
  assert (0 ≤ id node0_echoed < number_of_nodes node0_echoed) as Hid
    by (vm_compute; split; [discriminate | reflexivity]).
  split; [exact Hid|].
  exact (finish_round_resets_counters node0_echoed 107 Hid).
Defined.

(** The same holds after every round of the driver loop: an evaluation of
    the loop condition that finds the quorum ends the round. *)
Lemma poll_resets_counters K self now :
  correct_processors_have_replied K self = true →
  (poll K self now).1 = finish_round self now
  ∧ counters (poll K self now).1
    = zero_counters (number_of_nodes self) (id self).
Proof. intros Hq. unfold poll. by rewrite Hq. Qed.

(** C5: the token of the next round is the clock reading taken at the end
    of the round and nothing else.  Node 0 is constructed at the reading
    100 and runs one round in testing mode while the clock still reads 100:
    the round is recorded with token 100 and the next token is 100 again,
    not a greater one. *)
Theorem run_testing_token_not_greater :
  token node0 = 100
  ∧ last_correct_processors (self_after (run_testing node0 100))
    = Some {| Result.token := 100; Result.correct_processors := [0] |}
  ∧ token (self_after (run_testing node0 100)) = 100
  ∧ ¬ (token node0 < token (self_after (run_testing node0 100))).
Proof. repeat split; try reflexivity. vm_compute. discriminate. Qed.

(** Outside testing mode: with [n = 3] and [f = 1] the node alone is a
    quorum, so two evaluations of the loop condition end two rounds; at equal
    readings both rounds get the token of the first. *)
Lemma run_tokens_repeat :
  let self := init 0 3 1 100 in
  let self1 := (run 1 self [Poll 100]).1 in
  let self2 := (run 1 self [Poll 100; Poll 99]).1 in
  last_correct_processors self1
  = Some {| Result.token := 100; Result.correct_processors := [0] |}
  ∧ token self1 = 100
  ∧ last_correct_processors self2
    = Some {| Result.token := 100; Result.correct_processors := [0] |}
  ∧ token self2 = 99.
Proof. repeat split; reflexivity. Qed.

(** ** The scenario, evaluated *)

Example scenario_quorum :
  correct_processors_have_replied 3 node0 = false
  ∧ correct_processors_have_replied 3 node0_echoed = true.
Proof. split; reflexivity. Qed.

Example scenario_correct_processors :
  get_correct_processors node0 = [0]
  ∧ get_correct_processors node0_echoed = [1; 2; 3; 4; 5; 0].
Proof. split; reflexivity. Qed.

Example scenario_as_of :
  get_correct_processors_for_timestamp node0 0 = []
  ∧ get_correct_processors_for_timestamp (finish_round node0_echoed 107) 100
    = [1; 2; 3; 4; 5; 0]
  ∧ get_correct_processors_for_timestamp (finish_round node0_echoed 107) 107 = [].
Proof. repeat split; reflexivity. Qed.

(** The handler never adds or removes a key of the counter map. *)
Lemma on_msg_recv_dom_counters self msg :
  dom (counters (self_after (on_msg_recv self msg))) = dom (counters self).
Proof.
  unfold on_msg_recv. repeat case_decide; try done.
  destruct (counters self !! Msg.sender msg) as [c|] eqn:Hc; [|done].
  simpl. apply dom_insert_lookup_L. eauto.
Qed.

(** ** Further properties of the module *)

(** *** Broadcast *)

Lemma bind_singleton_fmap {A B} (f : A → B) (l : list A) :
  l ≫= (λ x, [f x]) = f <$> l.
Proof. induction l as [|x l IH]; [done|]. rewrite bind_cons, IH. done. Qed.

Lemma filter_all {A} (P : A → Prop) `{!∀ x, Decision (P x)} (l : list A) :
  (∀ x, x ∈ l → P x) → filter P l = l.
Proof.
  induction l as [|x l IH]; intros Hl; [done|].
  rewrite filter_cons_True by (apply Hl; left).
  f_equal. apply IH. intros y Hy. apply Hl. by right.
Qed.

Lemma broadcast_fmap self :
  broadcast self
  = (λ p, send_to_node p (echo (id self) (token self) (id self)) true)
    <$> filter (λ p, p ≠ id self) (range (number_of_nodes self)).
Proof. unfold broadcast, send_token, echo. apply bind_singleton_fmap. Qed.

Lemma length_peers n self_id :
  0 ≤ self_id < n →
  Z.of_nat (length (filter (λ p, p ≠ self_id) (range n))) = n - 1.
Proof.
  intros Hid. rewrite <-(size_zero_counters n self_id Hid).
  unfold zero_counters. rewrite map_size_list_to_map, length_fmap; [done|].
  rewrite <-list_fmap_compose. simpl. rewrite list_fmap_id.
  apply NoDup_filter, NoDup_seqZ.
Qed.

(** X1: [broadcast] performs sends only; it sends to a node exactly when the
    node is one of [0 .. n-1] other than this node, and every message it
    sends carries the current token with this node as sender and owner,
    marked reliable.  It never sends to itself. *)
Theorem broadcast_sends self e :
  e ∈ broadcast self
  ↔ ∃ p, (0 ≤ p < number_of_nodes self ∧ p ≠ id self)
         ∧ e = send_to_node p
                 {| Msg.type := EVENT_DRIVEN_FD_MESSAGE;
                    Msg.sender := id self;
                    Msg.data := {| Msg.token := token self;
                                   Msg.owner_id := id self |} |} true.
Proof.
  rewrite broadcast_fmap, list_elem_of_fmap. unfold echo.
  split; intros (p & H1 & H2); exists p.
  - apply list_elem_of_filter in H2 as [? ?%elem_of_range]. done.
  - destruct H1. split; [done|].
    apply list_elem_of_filter. by rewrite elem_of_range.
Qed.

(** X2: for a node whose id is one of [0 .. n-1], [broadcast] sends exactly
    [n - 1] messages, no two of them alike, to the other nodes in ascending
    order of their ids. *)
Theorem broadcast_once self :
  0 ≤ id self < number_of_nodes self →
  Z.of_nat (length (broadcast self)) = number_of_nodes self - 1
  ∧ NoDup (broadcast self)
  ∧ (sends (broadcast self)).*1.*1
    = seqZ 0 (id self) ++ seqZ (id self + 1) (number_of_nodes self - id self - 1).
Proof.
  intros Hid. rewrite broadcast_fmap. split; [|split].
  - rewrite length_fmap. by apply length_peers.
  - apply NoDup_fmap_2.
    + intros p q Hpq. by injection Hpq.
    + apply NoDup_filter, NoDup_seqZ.
  - assert (∀ l : list Z,
      (sends ((λ p, send_to_node p (echo (id self) (token self) (id self)) true)
              <$> l)).*1.*1 = l) as ->.
    { induction l as [|p l IH]; [done|]. simpl. f_equal. exact IH. }
    unfold range.
    replace (number_of_nodes self)
      with (id self + (1 + (number_of_nodes self - id self - 1))) at 1 by lia.
    rewrite seqZ_app by lia. rewrite seqZ_app by lia.
    rewrite !filter_app.
    assert (filter (λ p, p ≠ id self) (seqZ (0 + id self) 1) = []) as ->.
    { rewrite seqZ_cons by lia. rewrite filter_cons_False by (intros Hne; lia).
      by rewrite seqZ_nil. }
    replace (0 + id self + 1) with (id self + 1) by lia. simpl.
    f_equal; apply filter_all; intros p ?%elem_of_seqZ; lia.
Qed.

Lemma broadcast_once_witness :
  0 ≤ id node1 < number_of_nodes node1
  ∧ Z.of_nat (length (broadcast node1)) = 6 - 1
  ∧ NoDup (broadcast node1)
  ∧ (sends (broadcast node1)).*1.*1 = [0; 2; 3; 4; 5].
Proof.
  assert (0 ≤ id node1 < number_of_nodes node1) as Hid
    by (vm_compute; split; [discriminate | reflexivity]).
  split; [exact Hid|].
  exact (broadcast_once node1 Hid).
Defined.

(** *** A fresh module, a fresh round *)

Lemma keys_where_zero_counters (P : Z → Prop) `{!∀ c, Decision (P c)} n self_id :
  ¬ P 0 → keys_where P (zero_counters n self_id) = [].
Proof.
  intros HP. apply keys_where_nil. intros k c Hk.
  rewrite lookup_zero_counters in Hk. case_decide; by simplify_eq.
Qed.

(** X3: a module that was just constructed reports itself as the only
    correct processor of the running round, and has no recorded processors,
    whatever timestamp is asked for. *)
Theorem init_reports_self self_id n f now :
  get_correct_processors (init self_id n f now) = [self_id]
  ∧ get_last_correct_processors (init self_id n f now) = []
  ∧ ∀ timestamp,
      get_correct_processors_for_timestamp (init self_id n f now) timestamp = [].
Proof.
  split; [|done]. unfold get_correct_processors. simpl.
  rewrite keys_where_zero_counters; [done|lia].
Qed.

(** X4: with a positive threshold, a module that was just constructed, and
    likewise a module that just finished a round, meets the quorum only if
    the node alone is a quorum ([n - 2f <= 1]): a round cannot complete
    without new echoes otherwise. *)
Theorem fresh_round_needs_echoes K :
  0 < K →
  (∀ self_id n f now,
     correct_processors_have_replied K (init self_id n f now)
     = bool_decide (n - 2 * f ≤ 1))
  ∧ (∀ self now,
       correct_processors_have_replied K (finish_round self now)
       = bool_decide (number_of_nodes self - 2 * number_of_byzantine self ≤ 1)).
Proof.
  intros HK. split; intros; unfold correct_processors_have_replied; simpl;
    rewrite keys_where_zero_counters by lia; done.
Qed.

Lemma fresh_round_needs_echoes_witness :
  0 < 3
  ∧ correct_processors_have_replied 3 (init 0 6 1 100) = false
  ∧ correct_processors_have_replied 3 (finish_round node0_echoed 107) = false.
Proof.
  assert (0 < 3) as HK by lia.
  destruct (fresh_round_needs_echoes 3 HK) as [Hinit Hround].
  split; [exact HK|]. split.
  - exact (Hinit 0 6 1 100).
  - exact (Hround node0_echoed 107).
Defined.

(** *** What the handler keeps *)

Lemma on_msg_recv_counter_le self msg p c :
  counters self !! p = Some c →
  ∃ c', counters (self_after (on_msg_recv self msg)) !! p = Some c' ∧ c ≤ c'.
Proof.
  intros Hp. unfold on_msg_recv.
  repeat case_decide; try (exists c; split; [done|lia]).
  destruct (counters self !! Msg.sender msg) as [c0|] eqn:Hc;
    [|exists c; split; [done|lia]].
  simpl. destruct (decide (p = Msg.sender msg)) as [->|Hne].
  - exists (c0 + 1). rewrite lookup_insert_eq. split; [done|]. simplify_eq. lia.
  - exists c. rewrite lookup_insert_ne by done. split; [done|lia].
Qed.

Lemma keys_where_on_msg_recv (P : Z → Prop) `{!∀ c, Decision (P c)} self msg :
  (∀ c c', P c → c ≤ c' → P c') →
  (length (keys_where P (counters self))
   ≤ length (keys_where P (counters (self_after (on_msg_recv self msg)))))%nat
  ∧ keys_where P (counters self)
    ⊆ keys_where P (counters (self_after (on_msg_recv self msg))).
Proof.
  intros Hup.
  assert (keys_where P (counters self)
          ⊆ keys_where P (counters (self_after (on_msg_recv self msg)))) as Hsub.
  { intros p (c & Hp & HP)%elem_of_keys_where.
    destruct (on_msg_recv_counter_le self msg p c Hp) as (c' & Hp' & Hle).
    apply elem_of_keys_where. exists c'. split; [done|]. by apply (Hup c). }
  split; [|done]. apply submseteq_length, NoDup_submseteq; [|done].
  apply NoDup_filter, NoDup_keys.
Qed.

Lemma on_msg_recv_same_config self msg :
  id (self_after (on_msg_recv self msg)) = id self
  ∧ number_of_nodes (self_after (on_msg_recv self msg)) = number_of_nodes self
  ∧ number_of_byzantine (self_after (on_msg_recv self msg))
    = number_of_byzantine self.
Proof.
  unfold on_msg_recv; repeat case_decide; try done;
    by destruct (counters self !! Msg.sender msg).
Qed.

(** X5: the handler changes nothing but counters: the id, [n], [f], the
    current token and the recorded result are as before, and the counter map
    keeps its set of keys. *)
Theorem on_msg_recv_frame self msg :
  id (self_after (on_msg_recv self msg)) = id self
  ∧ number_of_nodes (self_after (on_msg_recv self msg)) = number_of_nodes self
  ∧ number_of_byzantine (self_after (on_msg_recv self msg)) = number_of_byzantine self
  ∧ token (self_after (on_msg_recv self msg)) = token self
  ∧ last_correct_processors (self_after (on_msg_recv self msg))
    = last_correct_processors self
  ∧ dom (counters (self_after (on_msg_recv self msg))) = dom (counters self).
Proof.
  repeat split; try apply on_msg_recv_dom_counters;
    unfold on_msg_recv; repeat case_decide; try done;
    by destruct (counters self !! Msg.sender msg).
Qed.

(** X6: the counter of a node after a call of the handler is its counter
    before, plus one exactly when the node is the sender of a message that
    names this node as owner and carries the current token.  No counter
    appears, disappears or goes down. *)
Theorem on_msg_recv_counters self msg p :
  counters (self_after (on_msg_recv self msg)) !! p
  = (λ c, if decide (p = Msg.sender msg
                     ∧ Msg.owner_id (Msg.data msg) = id self
                     ∧ Msg.token (Msg.data msg) = token self)
          then c + 1 else c) <$> counters self !! p.
Proof.
  unfold on_msg_recv.
  destruct (decide (Msg.owner_id (Msg.data msg) = id self)) as [Ho|Ho];
    [destruct (decide (Msg.token (Msg.data msg) = token self)) as [Ht|Ht]|].
  - destruct (counters self !! Msg.sender msg) as [c0|] eqn:Hc; simpl.
    + destruct (decide (p = Msg.sender msg)) as [->|Hne].
      * rewrite lookup_insert_eq, Hc. simpl. by rewrite decide_True.
      * rewrite lookup_insert_ne by done.
        destruct (counters self !! p); [|done]. simpl.
        rewrite decide_False; [done|tauto].
    + destruct (counters self !! p) as [c|] eqn:Hp; [|done]. simpl.
      rewrite decide_False; [done|]. intros (-> & _ & _). congruence.
  - simpl. destruct (counters self !! p); [|done]. simpl.
    rewrite decide_False; [done|tauto].
  - simpl. destruct (counters self !! p); [|done]. simpl.
    rewrite decide_False; [done|tauto].
Qed.

(** X7: a call of the handler never takes the quorum away: if
    [correct_processors_have_replied] held before the call, it holds after. *)
Theorem on_msg_recv_keeps_quorum K self msg :
  correct_processors_have_replied K self = true →
  correct_processors_have_replied K (self_after (on_msg_recv self msg)) = true.
Proof.
  unfold correct_processors_have_replied. rewrite !bool_decide_eq_true.
  destruct (on_msg_recv_same_config self msg) as (_ & -> & ->).
  destruct (keys_where_on_msg_recv (λ c, K ≤ c) self msg) as [Hlen _]; [lia|].
  rewrite !length_app. simpl. lia.
Qed.

Lemma on_msg_recv_keeps_quorum_witness :
  correct_processors_have_replied 3 node0_echoed = true
  ∧ correct_processors_have_replied 3
      (self_after (on_msg_recv node0_echoed (echo 5 100 0))) = true.
Proof.
  assert (correct_processors_have_replied 3 node0_echoed = true) as Hq
    by reflexivity.
  split; [exact Hq|].
  exact (on_msg_recv_keeps_quorum 3 node0_echoed (echo 5 100 0) Hq).
Defined.

(** X8: a call of the handler never removes a processor from the list
    [get_correct_processors] returns. *)
Theorem on_msg_recv_keeps_correct_processors self msg :
  get_correct_processors self
  ⊆ get_correct_processors (self_after (on_msg_recv self msg)).
Proof.
  unfold get_correct_processors.
  destruct (keys_where_on_msg_recv (λ c, 0 < c) self msg) as [_ Hsub]; [lia|].
  destruct (on_msg_recv_same_config self msg) as (-> & _).
  intros p [Hp|Hp]%elem_of_app; apply elem_of_app; [left; by apply Hsub|by right].
Qed.

(** X9: with a positive threshold, when the quorum is met the list that
    would be recorded for the round holds at least [n - 2f] processors. *)
Theorem quorum_bounds_correct_processors K self :
  0 < K →
  correct_processors_have_replied K self = true →
  number_of_nodes self - 2 * number_of_byzantine self
  ≤ Z.of_nat (length (get_correct_processors self)).
Proof.
  intros HK. unfold correct_processors_have_replied, get_correct_processors.
  rewrite bool_decide_eq_true, !length_app. simpl.
  assert (Z.of_nat (length (keys_where (λ c, K ≤ c) (counters self)))
          ≤ Z.of_nat (length (keys_where (λ c, 0 < c) (counters self)))); [|lia].
  apply Nat2Z.inj_le.
  apply submseteq_length, NoDup_submseteq; [apply NoDup_filter, NoDup_keys|].
  intros p (c & Hp & Hc)%elem_of_keys_where.
  apply elem_of_keys_where. exists c. split; [done|lia].
Qed.

Lemma quorum_bounds_correct_processors_witness :
  0 < 3
  ∧ correct_processors_have_replied 3 node0_echoed = true
  ∧ number_of_nodes node0_echoed - 2 * number_of_byzantine node0_echoed
    ≤ Z.of_nat (length (get_correct_processors node0_echoed)).
Proof.
  assert (0 < 3) as HK by lia.
  assert (correct_processors_have_replied 3 node0_echoed = true) as Hq
    by reflexivity.
  split; [exact HK|]. split; [exact Hq|].
  exact (quorum_bounds_correct_processors 3 node0_echoed HK Hq).
Defined.

(** *** Echoes add up *)

Lemma set_counters_id self : set_counters self (counters self) = self.
Proof. by destruct self. Qed.

Lemma self_after_counted self msg c :
  Msg.owner_id (Msg.data msg) = id self →
  Msg.token (Msg.data msg) = token self →
  counters self !! Msg.sender msg = Some c →
  self_after (on_msg_recv self msg)
  = set_counters self (<[Msg.sender msg := c + 1]> (counters self)).
Proof.
  intros Howner Htoken Hc. unfold on_msg_recv.
  rewrite !decide_True by done. by rewrite Hc.
Qed.

(** X10: [m] deliveries of a message from a peer with counter [c], naming
    this node as owner and carrying the current token, leave the peer with
    counter [c + m] and change nothing else. *)
Theorem deliver_all_replicate self msg c (m : nat) :
  Msg.owner_id (Msg.data msg) = id self →
  Msg.token (Msg.data msg) = token self →
  counters self !! Msg.sender msg = Some c →
  deliver_all self (replicate m msg)
  = set_counters self (<[Msg.sender msg := c + Z.of_nat m]> (counters self)).
Proof.
  revert self c. induction m as [|m IH]; intros self c Howner Htoken Hc.
  - simpl. rewrite Z.add_0_r, insert_id by done. by rewrite set_counters_id.
  - change (deliver_all self (replicate (S m) msg))
      with (deliver_all (self_after (on_msg_recv self msg)) (replicate m msg)).
    rewrite (self_after_counted self msg c) by done.
    rewrite (IH _ (c + 1)); simpl; try done.
    + unfold set_counters. simpl. rewrite insert_insert_eq.
      do 2 f_equal. lia.
    + apply lookup_insert_eq.
Qed.

Lemma deliver_all_replicate_witness :
  Msg.owner_id (Msg.data (echo 5 100 0)) = id node0
  ∧ Msg.token (Msg.data (echo 5 100 0)) = token node0
  ∧ counters node0 !! 5 = Some 0
  ∧ deliver_all node0 (replicate 3 (echo 5 100 0))
    = set_counters node0 (<[5 := 0 + 3]> (counters node0)).
Proof.
  assert (Msg.owner_id (Msg.data (echo 5 100 0)) = id node0) as Howner
    by reflexivity.
  assert (Msg.token (Msg.data (echo 5 100 0)) = token node0) as Htoken
    by reflexivity.
  assert (counters node0 !! Msg.sender (echo 5 100 0) = Some 0) as Hc
    by (vm_compute; reflexivity).
  split; [exact Howner|]. split; [exact Htoken|]. split; [exact Hc|].
  exact (deliver_all_replicate node0 (echo 5 100 0) 0 3 Howner Htoken Hc).
Defined.

(** *** Across the end of a round *)

(** X11: once a round has ended with a clock reading different from its
    token, a late echo of that round's token is dropped: it changes no
    counter of the new round and is not sent back. *)
Theorem late_echo_dropped self now msg :
  now ≠ token self →
  Msg.owner_id (Msg.data msg) = id self →
  Msg.token (Msg.data msg) = token self →
  on_msg_recv (finish_round self now) msg
  = {| completion := Returns;
       self_after := finish_round self now;
       effects := [] |}.
Proof.
  intros Hnow Howner Htoken. unfold on_msg_recv. simpl.
  rewrite decide_True by done. by rewrite decide_False by congruence.
Qed.

Lemma late_echo_dropped_witness :
  107 ≠ token node0_echoed
  ∧ Msg.owner_id (Msg.data (echo 5 100 0)) = id node0_echoed
  ∧ Msg.token (Msg.data (echo 5 100 0)) = token node0_echoed
  ∧ on_msg_recv (finish_round node0_echoed 107) (echo 5 100 0)
    = {| completion := Returns;
         self_after := finish_round node0_echoed 107;
         effects := [] |}.
Proof.
  assert (107 ≠ token node0_echoed) as Hnow by (vm_compute; discriminate).
  assert (Msg.owner_id (Msg.data (echo 5 100 0)) = id node0_echoed) as Howner
    by reflexivity.
  assert (Msg.token (Msg.data (echo 5 100 0)) = token node0_echoed) as Htoken
    by reflexivity.
  split; [exact Hnow|]. split; [exact Howner|]. split; [exact Htoken|].
  exact (late_echo_dropped node0_echoed 107 (echo 5 100 0) Hnow Howner Htoken).
Defined.

(** X12: after the end of a round, [get_last_correct_processors] returns the
    list [get_correct_processors] gave at the end of the round, and
    [get_correct_processors_for_timestamp] returns that list for every
    timestamp up to the token of the round, the node itself included, and
    the empty list for every later timestamp. *)
Theorem finish_round_query self now timestamp :
  get_last_correct_processors (finish_round self now) = get_correct_processors self
  ∧ get_correct_processors_for_timestamp (finish_round self now) timestamp
    = (if decide (timestamp ≤ token self) then get_correct_processors self else [])
  ∧ (timestamp ≤ token self
     → id self ∈ get_correct_processors_for_timestamp (finish_round self now) timestamp).
Proof.
  unfold get_correct_processors_for_timestamp, get_last_correct_processors.
  simpl. split; [done|]. split.
  - repeat case_decide; try done; lia.
  - intros Hle. rewrite decide_False by lia.
    unfold get_correct_processors. apply elem_of_app. right. by left.
Qed.

(** X13: in testing mode a round is recorded under the token that its
    broadcast carried: every message [run] sends bears the token stored with
    the result. *)
Theorem run_testing_token_recorded self now node_id msg reliable :
  send_to_node node_id msg reliable ∈ effects (run_testing self now) →
  Result.token <$> last_correct_processors (self_after (run_testing self now))
  = Some (Msg.token (Msg.data msg)).
Proof.
  simpl. rewrite broadcast_fmap. intros (p & Hp & _)%list_elem_of_fmap.
  by simplify_eq.
Qed.

Lemma run_testing_token_recorded_witness :
  send_to_node 3 (echo 0 100 0) true ∈ effects (run_testing node0_echoed 107)
  ∧ Result.token <$> last_correct_processors (self_after (run_testing node0_echoed 107))
    = Some 100.
Proof.
  assert (send_to_node 3 (echo 0 100 0) true
          ∈ effects (run_testing node0_echoed 107)) as Hin.
  { simpl. rewrite broadcast_fmap. apply list_elem_of_fmap. exists 3.
    split; [reflexivity|]. vm_compute. do 2 right. left. }
  split; [exact Hin|].
  exact (run_testing_token_recorded node0_echoed 107 3 (echo 0 100 0) true Hin).
Defined.

(** *** The freshness query *)

(** X14: a timestamp that gets a non-empty answer from
    [get_correct_processors_for_timestamp] gets it at every earlier
    timestamp too. *)
Theorem get_correct_processors_for_timestamp_earlier self ts1 ts2 :
  ts1 ≤ ts2 →
  get_correct_processors_for_timestamp self ts2 ≠ [] →
  get_correct_processors_for_timestamp self ts1
  = get_correct_processors_for_timestamp self ts2.
Proof.
  unfold get_correct_processors_for_timestamp. intros Hle.
  destruct (last_correct_processors self) as [r|]; [|done].
  destruct (decide (Result.token r < ts2)); [done|]. intros _.
  by rewrite decide_False by lia.
Qed.

Lemma get_correct_processors_for_timestamp_earlier_witness :
  50 ≤ 100
  ∧ get_correct_processors_for_timestamp (finish_round node0_echoed 107) 100 ≠ []
  ∧ get_correct_processors_for_timestamp (finish_round node0_echoed 107) 50
    = get_correct_processors_for_timestamp (finish_round node0_echoed 107) 100.
Proof.
  assert (50 ≤ 100) as Hle by lia.
  assert (get_correct_processors_for_timestamp (finish_round node0_echoed 107) 100
          ≠ []) as Hne by (vm_compute; discriminate).
  split; [exact Hle|]. split; [exact Hne|].
  exact (get_correct_processors_for_timestamp_earlier
           (finish_round node0_echoed 107) 50 100 Hle Hne).
Defined.

(** *** The recorded list *)

(** X15: when the counter map has no entry for the node's own id, as
    [__init__] and [run] build it, [get_correct_processors] lists no
    processor twice. *)
Theorem get_correct_processors_NoDup self :
  counters self !! id self = None →
  NoDup (get_correct_processors self).
Proof.
  intros Hself. unfold get_correct_processors. apply NoDup_app. repeat split.
  - apply NoDup_filter, NoDup_keys.
  - intros p (c & Hp & _)%elem_of_keys_where ->%list_elem_of_singleton.
    congruence.
  - apply NoDup_singleton.
Qed.

Lemma get_correct_processors_NoDup_witness :
  counters node0_echoed !! id node0_echoed = None
  ∧ NoDup (get_correct_processors node0_echoed).
Proof.
  assert (counters node0_echoed !! id node0_echoed = None) as Hself
    by (vm_compute; reflexivity).
  split; [exact Hself|].
  exact (get_correct_processors_NoDup node0_echoed Hself).
Defined.

(** *** Along a run *)

Lemma well_formed_init self_id n f now :
  well_formed self_id n f (init self_id n f now).
Proof.
  repeat split; try done. simpl. intros p c Hp.
  rewrite lookup_zero_counters in Hp. case_decide; by simplify_eq.
Qed.

Lemma well_formed_finish_round self_id n f self now :
  well_formed self_id n f self → well_formed self_id n f (finish_round self now).
Proof.
  intros (Hid & Hn & Hf & _). repeat split; simpl; try done.
  - by rewrite Hn, Hid.
  - intros p c Hp. rewrite lookup_zero_counters in Hp.
    case_decide; by simplify_eq.
  - intros r [= <-]. simpl. unfold get_correct_processors.
    apply elem_of_app. right. rewrite Hid. by left.
Qed.

Lemma well_formed_on_msg_recv self_id n f self msg :
  well_formed self_id n f self →
  well_formed self_id n f (self_after (on_msg_recv self msg)).
Proof.
  intros (Hid & Hn & Hf & Hdom & Hpos & Hlast).
  destruct (on_msg_recv_same_config self msg) as (Hid' & Hn' & Hf').
  repeat split; try congruence.
  - by rewrite on_msg_recv_dom_counters.
  - intros p c Hp. unfold on_msg_recv in Hp.
    repeat case_decide; try by eapply Hpos.
    destruct (counters self !! Msg.sender msg) as [c0|] eqn:Hc;
      [|by eapply Hpos].
    simpl in Hp. destruct (decide (p = Msg.sender msg)) as [->|Hne].
    + rewrite lookup_insert_eq in Hp. simplify_eq.
      specialize (Hpos _ _ Hc). lia.
    + rewrite lookup_insert_ne in Hp by done. by eapply Hpos.
  - intros r Hr. apply Hlast. rewrite <-Hr.
    unfold on_msg_recv; repeat case_decide; try done;
      by destruct (counters self !! Msg.sender msg).
Qed.

Lemma well_formed_handle K self_id n f self ev :
  well_formed self_id n f self → well_formed self_id n f (handle K self ev).1.
Proof.
  intros Hwf. destruct ev as [msg|now]; simpl.
  - by apply well_formed_on_msg_recv.
  - unfold poll. destruct (correct_processors_have_replied K self); simpl;
      [by apply well_formed_finish_round|done].
Qed.

Lemma run_schedule_cons K self ev rest :
  (run_schedule K self (ev :: rest)).1
  = (run_schedule K (handle K self ev).1 rest).1.
Proof.
  simpl. destruct (handle K self ev) as [self' out]. simpl.
  by destruct (run_schedule K self' rest).
Qed.

(** X16: whatever messages are delivered and whenever the driver looks,
    the object of a node constructed by [__init__] keeps its id, [n] and
    [f]; its counter map keeps exactly the keys it was given (the nodes
    [0 .. n-1] other than itself); no counter is negative; and every
    recorded result names the node itself. *)
Theorem run_schedule_well_formed K self_id n f now schedule :
  well_formed self_id n f (run_schedule K (init self_id n f now) schedule).1.
Proof.
  generalize (well_formed_init self_id n f now).
  generalize (init self_id n f now) as self.
  induction schedule as [|ev rest IH]; intros self Hwf; [done|].
  rewrite run_schedule_cons. by apply IH, well_formed_handle.
Qed.


(** *** Between two nodes *)

(** X22: the exchange between an owner [a] and a peer [b] that has a
    counter at [a].  The broadcast of [a] reaches [b]; [b] keeps its own
    state and returns the token to [a] under its own name; [a] counts the
    return for [b] and sends [b] the very message it had broadcast, so the
    exchange goes on by itself. *)
Theorem echo_round_trip a b c :
  id b ≠ id a →
  0 ≤ id b < number_of_nodes a →
  counters a !! id b = Some c →
  send_to_node (id b) (echo (id a) (token a) (id a)) true ∈ broadcast a
  ∧ on_msg_recv b (echo (id a) (token a) (id a))
    = {| completion := Returns;
         self_after := b;
         effects := node_0_delay b
                    ++ [send_to_node (id a) (echo (id b) (token a) (id a)) true] |}
  ∧ on_msg_recv a (echo (id b) (token a) (id a))
    = {| completion := Returns;
         self_after := set_counters a (<[id b := c + 1]> (counters a));
         effects := node_0_delay a
                    ++ [send_to_node (id b) (echo (id a) (token a) (id a)) true] |}.
Proof.
  intros Hne Hb Hc. split; [|split].
  - rewrite broadcast_fmap. apply list_elem_of_fmap. exists (id b).
    split; [done|]. apply list_elem_of_filter. by rewrite elem_of_range.
  - unfold on_msg_recv. simpl. by rewrite decide_False by congruence.
  - unfold on_msg_recv. simpl. rewrite !decide_True by done. by rewrite Hc.
Qed.

Lemma echo_round_trip_witness :
  id node1 ≠ id node0
  ∧ 0 ≤ id node1 < number_of_nodes node0
  ∧ counters node0 !! id node1 = Some 0
  ∧ send_to_node 1 (echo 0 100 0) true ∈ broadcast node0
  ∧ on_msg_recv node1 (echo 0 100 0)
    = {| completion := Returns;
         self_after := node1;
         effects := [send_to_node 0 (echo 1 100 0) true] |}
  ∧ on_msg_recv node0 (echo 1 100 0)
    = {| completion := Returns;
         self_after := set_counters node0 (<[1 := 0 + 1]> (counters node0));
         effects := [sleep (Seconds 1); send_to_node 1 (echo 0 100 0) true] |}.
Proof.
  assert (id node1 ≠ id node0) as Hne by (vm_compute; discriminate).
  assert (0 ≤ id node1 < number_of_nodes node0) as Hb
    by (vm_compute; split; [discriminate | reflexivity]).
  assert (counters node0 !! id node1 = Some 0) as Hc by (vm_compute; reflexivity).
  split; [exact Hne|]. split; [exact Hb|]. split; [exact Hc|].
  exact (echo_round_trip node0 node1 0 Hne Hb Hc).
Defined.

(** ** Tracking of client requests *)

Section MetricsFacts.
Context {ClientRequest Label : Type} `{Countable ClientRequest}.
Variables get_client_id get_timestamp : ClientRequest → Label.

(** X18: a request that is reported pending twice keeps the reading of the
    first report: the second call leaves the table as the first left it and
    only logs an error. *)
Theorem client_req_added_twice (client_reqs : gmap ClientRequest Z) client_req now now' :
  Metrics.client_req_added_to_pending (Label := Label)
    (Metrics.client_req_added_to_pending (Label := Label) client_reqs client_req now).1
    client_req now'
  = ((Metrics.client_req_added_to_pending (Label := Label) client_reqs client_req now).1,
     [Metrics.log Metrics.ERROR (Metrics.already_tracked client_req)]).
Proof.
  unfold Metrics.client_req_added_to_pending.
  destruct (client_reqs !! client_req) as [start|] eqn:Hr; simpl.
  - by rewrite Hr.
  - by rewrite lookup_insert_eq.
Qed.

(** X19: a request that was not tracked, reported pending at the reading
    [now] and executed at the reading [now'], leaves the table as it was
    before and sets the gauge once, labelled with the client id and the
    timestamp of the request and with the sequence number, to [now' - now]. *)
Theorem client_req_added_then_executed
    (client_reqs : gmap ClientRequest Z) client_req seq_num now now' :
  client_reqs !! client_req = None →
  Metrics.client_req_executed get_client_id get_timestamp
    (Metrics.client_req_added_to_pending (Label := Label) client_reqs client_req now).1
    client_req seq_num now'
  = (client_reqs,
     [Metrics.log Metrics.INFO (Metrics.execed_in (now' - now));
      Metrics.gauge_set (get_client_id client_req) (get_timestamp client_req)
        seq_num (now' - now)]).
Proof.
  intros Hr. unfold Metrics.client_req_added_to_pending. rewrite Hr. simpl.
  unfold Metrics.client_req_executed. rewrite lookup_insert_eq.
  by rewrite delete_insert_eq, delete_id.
Qed.

(** X20: a request is executed once: a second report of its execution, like
    the report of a request that was never tracked, changes nothing and sets
    no gauge. *)
Theorem client_req_executed_twice
    (client_reqs : gmap ClientRequest Z) client_req seq_num now seq_num' now' :
  Metrics.client_req_executed get_client_id get_timestamp
    (Metrics.client_req_executed get_client_id get_timestamp
       client_reqs client_req seq_num now).1
    client_req seq_num' now'
  = ((Metrics.client_req_executed get_client_id get_timestamp
       client_reqs client_req seq_num now).1,
     [Metrics.log Metrics.DEBUG (Metrics.not_tracked client_req)]).
Proof.
  unfold Metrics.client_req_executed.
  destruct (client_reqs !! client_req) as [start|] eqn:Hr; simpl.
  - by rewrite lookup_delete_eq.
  - by rewrite Hr.
Qed.

(** X21: the two calls touch the entry of their own request only. *)
Theorem client_req_others_untouched
    (client_reqs : gmap ClientRequest Z) client_req other seq_num now :
  other ≠ client_req →
  (Metrics.client_req_added_to_pending (Label := Label) client_reqs client_req now).1 !! other = client_reqs !! other
  ∧ (Metrics.client_req_executed get_client_id get_timestamp
       client_reqs client_req seq_num now).1 !! other = client_reqs !! other.
Proof.
  intros Hne.
  unfold Metrics.client_req_added_to_pending, Metrics.client_req_executed.
  destruct (client_reqs !! client_req); simpl;
    by rewrite ?lookup_insert_ne, ?lookup_delete_ne.
Qed.

End MetricsFacts.

Lemma client_req_added_then_executed_witness :
  pending_7 !! 8 = None
  ∧ Metrics.client_req_executed (λ r, r) (λ r, r + 1000)
      (Metrics.client_req_added_to_pending (Label := Z) pending_7 8 50).1 8 3 65
    = (pending_7,
       [Metrics.log Metrics.INFO (Metrics.execed_in (65 - 50));
        Metrics.gauge_set 8 (8 + 1000) 3 (65 - 50)]).
Proof.
  assert (pending_7 !! 8 = None) as Hr by reflexivity.
  split; [exact Hr|].
  exact (client_req_added_then_executed (λ r, r) (λ r, r + 1000)
           pending_7 8 3 50 65 Hr).
Defined.

Lemma client_req_others_untouched_witness :
  7 ≠ 8
  ∧ (Metrics.client_req_added_to_pending (Label := Z) pending_7 8 50).1 !! 7
    = pending_7 !! 7
  ∧ (Metrics.client_req_executed (λ r, r) (λ r, r + 1000) pending_7 8 3 50).1 !! 7
    = pending_7 !! 7.
Proof.
  assert (7 ≠ 8) as Hne by lia.
  split; [exact Hne|].
  exact (client_req_others_untouched (λ r, r) (λ r, r + 1000) pending_7 8 7 3 50 Hne).
Defined.
